(** * Projection engine of the investments simulator ([src/app.py], [newinvestment])

    The engine is embedded twice.  Module-free definitions at the top give the
    function with the working goal list threaded as a value; module [Heap]
    gives the same code over an explicit object store, so that the aliasing
    between the caller's [travelgoals] list and the engine's working copy is
    visible.  The two are proved to agree.

    Numbers.  Python's [int] and [float] arguments are modelled by their exact
    rational value ([Qc], canonical rationals, Leibniz equality = Python's
    [==] on numbers).  Mixed int/float arithmetic is value preserving, so one
    type suffices; the rounding error of binary floating point is not
    modelled.  [int(x)] truncates toward zero. *)

From Stdlib Require Import QArith Qcanon Qround Lqa String.
From stdpp Require Import base numbers list sorting gmap.

Local Open Scope Z_scope.
Local Open Scope Qc_scope.

(** ** Numbers *)

(** Python [int(x)] on a number: truncation toward zero. *)
Definition py_int (x : Qc) : Z := Z.quot (Qnum x) (Z.pos (Qden x)).


(** An integer used as a number. *)
Definition of_int (z : Z) : Qc := Qc_of_Z z.

(** A number is integral when [int] does not change its value. *)
Definition integral (x : Qc) : Prop := of_int (py_int x) = x.

(** ** Outcomes of a call *)

(** [InvalidWithdrawal] is the [ValueError] raised on line 32;
    [RemoveAbsent] is the [ValueError] that [list.remove(x)] raises when [x]
    is not in the list; [OverflowError] is raised when an [int] is too large
    to be converted to [float], when an integer quotient is, and by [int] of
    an infinite [float]; [NanToInteger] is the [ValueError] of [int] of a
    NaN.  The last two come from arithmetic on binary64 numbers and are
    raised by the engine of module [Py] only. *)
Inductive exn : Type :=
| InvalidWithdrawal
| RemoveAbsent
| OverflowError
| NanToInteger.

(** [OutOfFuel] comes with the fuel of [while_loop] below and is never the
    outcome of a call ([newinvestment_not_OutOfFuel]). *)
Inductive outcome (A : Type) : Type :=
| Returned (a : A)
| Raised (e : exn)
| OutOfFuel.
Arguments Returned {A} a.
Arguments Raised {A} e.
Arguments OutOfFuel {A}.

Definition bind {A B : Type} (m : outcome A) (k : A → outcome B) : outcome B :=
  match m with
  | Returned a => k a
  | Raised e => Raised e
  | OutOfFuel => OutOfFuel
  end.

Notation "'let!' x ':=' m 'in' k" := (bind m (λ x, k))
  (at level 10, x name, m at level 100, k at level 200, only parsing).

(** ** Lists *)

(** Python [l.remove(x)]: drop the first element equal to [x]; [None] stands
    for the [ValueError] raised when there is none. *)
Fixpoint list_remove (x : Qc) (l : list Qc) : option (list Qc) :=
  match l with
  | [] => None
  | h :: l' =>
      if decide (h = x) then Some l'
      else match list_remove x l' with
           | Some r => Some (h :: r)
           | None => None
           end
  end.

(** ** The engine, working list as a value *)

(** The local variables of [newinvestment] that the loop updates.  [fired]
    is a ghost variable: the program has no such variable and nothing below
    reads it; it logs, oldest first, the goal of every withdrawal applied. *)
Record state : Type := mkState {
  y0 : Qc;                      (* current balance *)
  goals : list Qc;              (* working copy of the goals *)
  withdraw_months : list Z;
  y : list Z;                   (* balance at the end of each month *)
  y_start : list Z;             (* balance at the start of each month *)
  fired : list Qc;              (* ghost *)
}.

(** Line 28: [int(y0 * (1 + t / 100) + a)]. *)
Definition grow (t a b : Qc) : Z := py_int (b * (1 + t / of_int 100) + a).

(** Lines 31-37, a withdrawal for [goal]. *)
Definition withdraw (travelbudget : Qc) (x0 : Z) (goal : Qc) (s : state)
  : outcome state :=
  if decide (y0 s < travelbudget) then Raised InvalidWithdrawal
  else
    match list_remove goal (goals s) with
    | None => Raised RemoveAbsent
    | Some gs =>
        Returned {| y0 := y0 s - travelbudget;
                    goals := gs;
                    withdraw_months := withdraw_months s ++ [(x0 + 1)%Z];
                    y := y s;
                    y_start := y_start s;
                    fired := fired s ++ [goal] |}
    end.

(** Lines 30-37, the body of the [for] loop for one [goal]. *)
Definition check_goal (travelbudget : Qc) (x0 : Z) (goal : Qc) (s : state)
  : outcome state :=
  if decide (goal < y0 s) then withdraw travelbudget x0 goal s
  else Returned s.

(** Line 29: [for goal in list(goals)], over the snapshot [list(goals)]. *)
Fixpoint for_goals (travelbudget : Qc) (x0 : Z) (snapshot : list Qc) (s : state)
  : outcome state :=
  match snapshot with
  | [] => Returned s
  | goal :: rest =>
      let! s' := check_goal travelbudget x0 goal s in
      for_goals travelbudget x0 rest s'
  end.

(** Lines 27-28: record the opening balance, then growth and contribution. *)
Definition open_month (t a : Qc) (s : state) : state :=
  {| y0 := of_int (grow t a (y0 s));
     goals := goals s;
     withdraw_months := withdraw_months s;
     y := y s;
     y_start := y_start s ++ [py_int (y0 s)];
     fired := fired s |}.

(** Line 38: record the closing balance. *)
Definition close_month (s : state) : state :=
  {| y0 := y0 s;
     goals := goals s;
     withdraw_months := withdraw_months s;
     y := y s ++ [py_int (y0 s)];
     y_start := y_start s;
     fired := fired s |}.

(** Lines 27-38, the body of the [while] loop (line 39 is the [x0 + 1] of
    [while_loop]). *)
Definition month (t a travelbudget : Qc) (x0 : Z) (s : state) : outcome state :=
  let s1 := open_month t a s in
  let! s2 := for_goals travelbudget x0 (goals s1) s1 in
  Returned (close_month s2).

(** Lines 25-39: [while x0 < limit]. *)
Fixpoint while_loop (fuel : nat) (t a travelbudget : Qc) (limit x0 : Z) (s : state)
  : outcome state :=
  if decide (x0 < limit)%Z then
    match fuel with
    | O => OutOfFuel
    | S fuel' =>
        let! s' := month t a travelbudget x0 s in
        while_loop fuel' t a travelbudget limit (x0 + 1) s'
    end
  else Returned s.

(** Lines 16-23. *)
Definition initial_state (travelgoals : list Qc) (initial_balance : Qc) : state :=
  {| y0 := of_int (py_int initial_balance);
     goals := travelgoals;
     withdraw_months := [];
     y := [];
     y_start := [];
     fired := [] |}.

(** The state with which the loop is left.  With [limit := k] this is the
    state at the end of month [k] of any longer simulation ([run_prefix]). *)
Definition run (t a : Qc) (travelgoals : list Qc) (travelbudget : Qc)
    (limit : Z) (initial_balance : Qc) : outcome state :=
  while_loop (Z.to_nat limit) t a travelbudget limit 0
    (initial_state travelgoals initial_balance).

(** [newinvestment(t, a, travelgoals, travelbudget, limit, initial_balance)];
    the result is the triple [(y, y_start, withdraw_months)]. *)
Definition newinvestment (t a : Qc) (travelgoals : list Qc) (travelbudget : Qc)
    (limit : Z) (initial_balance : Qc) : outcome (list Z * list Z * list Z) :=
  let! s := run t a travelgoals travelbudget limit initial_balance in
  Returned (y s, y_start s, withdraw_months s).

(** [n] consecutive months starting at counter [x0]: the loop unrolled, used
    to state and prove facts month by month. *)
Fixpoint months (n : nat) (t a travelbudget : Qc) (x0 : Z) (s : state)
  : outcome state :=
  match n with
  | O => Returned s
  | S n' =>
      let! s' := month t a travelbudget x0 s in
      months n' t a travelbudget (x0 + 1) s'
  end.


(** ** The engine over an object store *)

(** Python lists are mutable objects reached through references.  Here the
    goal lists live in a store; [travelgoals] is the caller's reference.
    The lists [y], [y_start] and [withdraw_months] are created by the call
    and only appended to, and the snapshot [list(goals)] of line 29 is
    created and only read: they stay values. *)
Module Heap.

Definition loc : Type := positive.

Record frame : Type := mkFrame {
  y0 : Qc;
  goals : loc;
  withdraw_months : list Z;
  y : list Z;
  y_start : list Z;
}.

(** The list a reference points to.  References held by a program are
    always allocated; the default is never reached from such a state. *)
Definition read (σ : gmap loc (list Qc)) (l : loc) : list Qc :=
  default [] (σ !! l).

(** A new list object. *)
Definition alloc (σ : gmap loc (list Qc)) (v : list Qc)
  : loc * gmap loc (list Qc) :=
  let l := fresh (dom σ) in (l, <[l := v]> σ).

(** A computation over the store; the store survives an exception. *)
Definition M (A : Type) : Type :=
  gmap loc (list Qc) → outcome A * gmap loc (list Qc).

Definition mbind {A B : Type} (m : M A) (k : A → M B) : M B :=
  λ σ, match m σ with
       | (Returned a, σ') => k a σ'
       | (Raised e, σ') => (Raised e, σ')
       | (OutOfFuel, σ') => (OutOfFuel, σ')
       end.

Definition withdraw (travelbudget : Qc) (x0 : Z) (goal : Qc) (f : frame)
  : M frame :=
  λ σ,
    if decide (y0 f < travelbudget) then (Raised InvalidWithdrawal, σ)
    else
      match list_remove goal (read σ (goals f)) with
      | None => (Raised RemoveAbsent, σ)
      | Some gs =>
          (Returned {| y0 := y0 f - travelbudget;
                       goals := goals f;
                       withdraw_months := withdraw_months f ++ [(x0 + 1)%Z];
                       y := y f;
                       y_start := y_start f |},
           <[goals f := gs]> σ)
      end.

Definition check_goal (travelbudget : Qc) (x0 : Z) (goal : Qc) (f : frame)
  : M frame :=
  λ σ, if decide (goal < y0 f) then withdraw travelbudget x0 goal f σ
       else (Returned f, σ).

Fixpoint for_goals (travelbudget : Qc) (x0 : Z) (snapshot : list Qc)
    (f : frame) : M frame :=
  match snapshot with
  | [] => λ σ, (Returned f, σ)
  | goal :: rest =>
      mbind (check_goal travelbudget x0 goal f)
            (for_goals travelbudget x0 rest)
  end.

Definition open_month (t a : Qc) (f : frame) : frame :=
  {| y0 := of_int (grow t a (y0 f));
     goals := goals f;
     withdraw_months := withdraw_months f;
     y := y f;
     y_start := y_start f ++ [py_int (y0 f)] |}.

Definition close_month (f : frame) : frame :=
  {| y0 := y0 f;
     goals := goals f;
     withdraw_months := withdraw_months f;
     y := y f ++ [py_int (y0 f)];
     y_start := y_start f |}.

Definition month (t a travelbudget : Qc) (x0 : Z) (f : frame) : M frame :=
  λ σ,
    let f1 := open_month t a f in
    mbind (for_goals travelbudget x0 (read σ (goals f1)) f1)
          (λ f2 σ', (Returned (close_month f2), σ')) σ.

Fixpoint while_loop (fuel : nat) (t a travelbudget : Qc) (limit x0 : Z)
    (f : frame) : M frame :=
  if decide (x0 < limit)%Z then
    match fuel with
    | O => λ σ, (OutOfFuel, σ)
    | S fuel' =>
        mbind (month t a travelbudget x0 f)
              (while_loop fuel' t a travelbudget limit (x0 + 1))
    end
  else λ σ, (Returned f, σ).

(** [travelgoals] is a reference into the caller's store; line 22 copies
    the list it points to into a new object. *)
Definition newinvestment (t a : Qc) (travelgoals : loc) (travelbudget : Qc)
    (limit : Z) (initial_balance : Qc) : M (list Z * list Z * list Z) :=
  λ σ,
    let (g, σ1) := alloc σ (read σ travelgoals) in
    let f0 := {| y0 := of_int (py_int initial_balance);
                 goals := g;
                 withdraw_months := [];
                 y := [];
                 y_start := [] |} in
    mbind (while_loop (Z.to_nat limit) t a travelbudget limit 0 f0)
          (λ f σ', (Returned (y f, y_start f, withdraw_months f), σ')) σ1.

End Heap.

(** The frame of the store-level engine that corresponds to a state of the
    value-level engine, the working list being the object at [g]. *)
Definition frame_of (g : Heap.loc) (s : state) : Heap.frame :=
  {| Heap.y0 := y0 s;
     Heap.goals := g;
     Heap.withdraw_months := withdraw_months s;
     Heap.y := y s;
     Heap.y_start := y_start s |}.

(** [agrees g σ0 o r]: the store-level result [r] is the value-level outcome
    [o], and its store is [σ0] with the working list at [g]. *)
Definition agrees (g : Heap.loc) (σ0 : gmap Heap.loc (list Qc))
    (o : outcome state) (r : outcome Heap.frame * gmap Heap.loc (list Qc))
  : Prop :=
  match o with
  | Returned s => r = (Returned (frame_of g s), <[g := goals s]> σ0)
  | Raised e => ∃ l, r = (Raised e, <[g := l]> σ0)
  | OutOfFuel => ∃ l, r = (OutOfFuel, <[g := l]> σ0)
  end.


(** ** The validator, the caller and the summary *)

(** Lines 110-119.  The result is the message shown to the user, [None]
    when the inputs are accepted. *)
Definition validate_inputs (rate horizon : Qc) (goals : list Qc)
    (initial contribution budget : Qc) : option string :=
  if decide (rate < 0) then
    Some "A taxa mensal não pode ser negativa."%string
  else if decide (horizon ≤ 0) then
    Some "O horizonte deve ser maior que zero."%string
  else if decide (Exists (λ g, g ≤ 0) goals) then
    Some "Todas as metas devem ser maiores que zero."%string
  else if decide (initial < 0 ∨ contribution < 0 ∨ budget < 0) then
    Some "Valores monetários não podem ser negativos."%string
  else None.

(** Lines 122-141: [sim_data] is [None] when the validator has a message or
    the engine raises ([except ValueError] catches both [ValueError]s of
    [exn]); otherwise it is the engine's result for [int(limit)] months. *)
Definition sim_data (t limit : Qc) (travelgoals : list Qc)
    (initial_balance monthly_contribution travel_budget : Qc)
  : option (list Z * list Z * list Z) :=
  match validate_inputs t limit travelgoals initial_balance
          monthly_contribution travel_budget with
  | Some _ => None
  | None =>
      match newinvestment t monthly_contribution travelgoals travel_budget
              (py_int limit) initial_balance with
      | Returned r => Some r
      | Raised _ => None
      | OutOfFuel => None
      end
  end.

(** Line 199: [len(withdraw_months) * travel_budget]. *)
Definition total_withdrawals (withdraw_months : list Z) (travel_budget : Qc)
  : Qc :=
  of_int (Z.of_nat (length withdraw_months)) * travel_budget.

(** Line 200: [y[-1] if y else initial_balance]. *)
Definition final_balance (y : list Z) (initial_balance : Qc) : Qc :=
  match last y with
  | Some b => of_int b
  | None => initial_balance
  end.

(** Python [l[i]] for an integer index: a negative index counts from the
    end; [None] stands for [IndexError]. *)
Definition py_index (l : list Z) (i : Z) : option Z :=
  let n := Z.of_nat (length l) in
  let j := if decide (i < 0)%Z then (i + n)%Z else i in
  if decide (0 ≤ j < n)%Z then l !! Z.to_nat j else None.

(** Line 164: [[y_start[m - 1] for m in withdraw_months]], the heights of
    the withdrawal markers of the chart. *)
Definition withdraw_values (y_start withdraw_months : list Z)
  : option (list Z) :=
  mapM (λ m, py_index y_start (m - 1)) withdraw_months.

(** Moves a goal on [Qc] to the underlying rationals, where [lra] works. *)
Ltac qc_to_q :=
  unfold of_int, Qc_of_Z, Qcle, Qclt, Qcminus, Qcdiv, Qcplus, Qcmult, Qcopp,
    Qcinv, Q2Qc in *;
  cbn [this] in *;
  rewrite ?Qred_correct in *.

(** * Properties *)

(** ** Numbers *)

Lemma grow_arg_nonneg (t a b : Qc) :
  0 ≤ b → - of_int 100 ≤ t → 0 ≤ a → 0 ≤ b * (1 + t / of_int 100) + a.
Proof.
  intros Hb Ht Ha.
  qc_to_q.
  assert (0 <= 1 + t * / inject_Z 100)%Q as Hf.
  { change (/ inject_Z 100)%Q with (1 # 100)%Q.
    change (- inject_Z 100)%Q with (- (100 # 1))%Q in Ht. lra. }
  pose proof (Qmult_le_0_compat _ _ Hb Hf). lra.
Qed.

Lemma sub_nonneg (b w : Qc) : ¬ b < w → 0 ≤ b - w.
Proof. intros H%Qcnot_lt_le. qc_to_q. lra. Qed.


Lemma py_int_nonneg (x : Qc) : 0 ≤ x → (0 ≤ py_int x)%Z.
Proof.
  intros H. unfold py_int. apply Z.quot_pos; [|lia].
  unfold Qcle, Qle in H. simpl in H. lia.
Qed.

Lemma py_int_of_int z : py_int (of_int z) = z.
Proof. unfold py_int, of_int. simpl. apply Z.quot_1_r. Qed.

Lemma of_int_nonneg z : (0 ≤ z)%Z → 0 ≤ of_int z.
Proof. intros H. unfold of_int. by apply (Z2Qc_inj_le 0 z). Qed.





Lemma integral_of_int z : integral (of_int z).
Proof. unfold integral. by rewrite py_int_of_int. Qed.

Lemma integral_sub x w : integral x → integral w → integral (x - w).
Proof.
  unfold integral. intros <- <-. unfold of_int.
  rewrite <- Z2Qc_inj_sub. fold (of_int (py_int x - py_int w)).
  by rewrite py_int_of_int.
Qed.

(** ** Outcomes *)

Lemma bind_Returned {A B} (m : outcome A) (k : A → outcome B) b :
  bind m k = Returned b ↔ ∃ a, m = Returned a ∧ k a = Returned b.
Proof.
  destruct m; simpl; split; try done; try (by intros (? & ? & ?)).
  - intros H. by eexists.
  - by intros (? & [= <-] & ?).
Qed.

Lemma bind_Raised {A B} (m : outcome A) (k : A → outcome B) e :
  bind m k = Raised e ↔ m = Raised e ∨ ∃ a, m = Returned a ∧ k a = Raised e.
Proof.
  destruct m as [a| |]; simpl; split.
  - intros H. right. by eexists.
  - by intros [|(? & [= <-] & ?)].
  - intros [= ->]. by left.
  - by intros [[= ->]|(? & ? & ?)].
  - done.
  - by intros [|(? & ? & ?)].
Qed.

Lemma bind_assoc {A B C} (m : outcome A) (k : A → outcome B) (h : B → outcome C) :
  bind (bind m k) h = bind m (λ a, bind (k a) h).
Proof. by destruct m. Qed.

(** ** [list.remove] *)


Lemma list_remove_Permutation x l r : list_remove x l = Some r → l ≡ₚ x :: r.
Proof.
  revert r. induction l as [|h l IH]; intros r; [done|]. simpl.
  case_decide as Hh; [intros [= <-]; by subst|].
  destruct (list_remove x l) as [r'|]; [|done]. intros [= <-].
  rewrite (IH r' eq_refl). apply Permutation_swap.
Qed.

Lemma list_remove_length x l r :
  list_remove x l = Some r → length l = S (length r).
Proof. intros H%list_remove_Permutation. by rewrite H. Qed.

(** ** The loops unrolled *)


Lemma months_snoc n t a w x0 s :
  months (S n) t a w x0 s =
  bind (months n t a w x0 s) (month t a w (x0 + Z.of_nat n)).
Proof.
  revert x0 s. induction n as [|n IH]; intros x0 s.
  - simpl. rewrite Z.add_0_r. by destruct (month t a w x0 s).
  - change (months (S (S n)) t a w x0 s)
      with (bind (month t a w x0 s) (months (S n) t a w (x0 + 1))).
    change (months (S n) t a w x0 s)
      with (bind (month t a w x0 s) (months n t a w (x0 + 1))).
    rewrite bind_assoc.
    destruct (month t a w x0 s) as [s'| |]; cbn [bind]; [|done..].
    rewrite IH. do 2 f_equal. lia.
Qed.

(** The fuel given by [run] is enough: the loop is left through its test. *)
Lemma while_loop_months fuel t a w limit x0 s :
  (Z.to_nat (limit - x0) ≤ fuel)%nat →
  while_loop fuel t a w limit x0 s = months (Z.to_nat (limit - x0)) t a w x0 s.
Proof.
  revert x0 s. induction fuel as [|fuel IH]; intros x0 s Hf; simpl.
  - case_decide; [lia|]. by replace (Z.to_nat (limit - x0)) with O by lia.
  - case_decide.
    + replace (Z.to_nat (limit - x0)) with (S (Z.to_nat (limit - (x0 + 1)))) by lia.
      simpl. destruct (month t a w x0 s); simpl; [|done..]. apply IH. lia.
    + by replace (Z.to_nat (limit - x0)) with O by lia.
Qed.

Lemma run_months t a gs w limit init :
  run t a gs w limit init
  = months (Z.to_nat limit) t a w 0 (initial_state gs init).
Proof.
  unfold run. rewrite while_loop_months by lia. by rewrite Z.sub_0_r.
Qed.

(** One more month: the state at the end of month [k + 1] is that of month
    [k] put through the loop body with counter [k]. *)
Lemma run_succ t a gs w (k : Z) init :
  (0 ≤ k)%Z →
  run t a gs w (k + 1) init = bind (run t a gs w k init) (month t a w k).
Proof.
  intros Hk. rewrite !run_months.
  replace (Z.to_nat (k + 1)) with (S (Z.to_nat k)) by lia.
  rewrite months_snoc. do 2 f_equal. lia.
Qed.

Lemma months_app n m t a w x0 s :
  months (n + m) t a w x0 s =
  bind (months n t a w x0 s) (months m t a w (x0 + Z.of_nat n)).
Proof.
  revert x0 s. induction n as [|n IH]; intros x0 s.
  - simpl. by rewrite Z.add_0_r.
  - cbn [months Nat.add]. rewrite bind_assoc.
    destruct (month t a w x0 s) as [s'| |]; cbn [bind]; [|done..].
    rewrite IH. do 2 f_equal. lia.
Qed.

(** A simulation over [limit] months passes through the state that a
    simulation over [k ≤ limit] months returns. *)
Lemma run_prefix t a gs w (k limit : Z) init :
  (0 ≤ k ≤ limit)%Z →
  run t a gs w limit init =
  bind (run t a gs w k init) (months (Z.to_nat (limit - k)) t a w k).
Proof.
  intros Hk. rewrite !run_months.
  replace (Z.to_nat limit) with (Z.to_nat k + Z.to_nat (limit - k))%nat by lia.
  rewrite months_app. do 2 f_equal. lia.
Qed.

(** ** What one goal check can do *)

Lemma check_goal_Returned w x0 g s s' :
  check_goal w x0 g s = Returned s' →
  (¬ g < y0 s ∧ s' = s) ∨
  (g < y0 s ∧ ¬ y0 s < w ∧
   ∃ gs, list_remove g (goals s) = Some gs ∧
         s' = {| y0 := y0 s - w; goals := gs;
                 withdraw_months := withdraw_months s ++ [(x0 + 1)%Z];
                 y := y s; y_start := y_start s;
                 fired := fired s ++ [g] |}).
Proof.
  unfold check_goal, withdraw. case_decide as Hg; [|intros [= <-]; by left].
  case_decide as Hw; [done|].
  destruct (list_remove g (goals s)) as [gs|] eqn:Hr; [|done].
  intros [= <-]. right. eauto.
Qed.


Lemma check_goal_not_OutOfFuel w x0 g s : check_goal w x0 g s ≠ OutOfFuel.
Proof.
  unfold check_goal, withdraw. repeat case_decide; try done.
  by destruct (list_remove g (goals s)).
Qed.

Lemma for_goals_not_OutOfFuel w x0 snapshot s :
  for_goals w x0 snapshot s ≠ OutOfFuel.
Proof.
  revert s. induction snapshot as [|g rest IH]; intros s; [done|]. simpl.
  destruct (check_goal w x0 g s) eqn:Hc; simpl; [apply IH|done|].
  by apply check_goal_not_OutOfFuel in Hc.
Qed.

Lemma month_not_OutOfFuel t a w x0 s : month t a w x0 s ≠ OutOfFuel.
Proof.
  unfold month.
  destruct (for_goals w x0 (goals (open_month t a s)) (open_month t a s)) eqn:Hf;
    simpl; [done..|].
  by apply for_goals_not_OutOfFuel in Hf.
Qed.

Lemma months_not_OutOfFuel n t a w x0 s : months n t a w x0 s ≠ OutOfFuel.
Proof.
  revert x0 s. induction n as [|n IH]; intros x0 s; [done|]. simpl.
  destruct (month t a w x0 s) eqn:Hm; simpl; [apply IH|done|].
  by apply month_not_OutOfFuel in Hm.
Qed.





(** ** Invariants of the two loops *)

Section invariants.
Context (t a w : Qc).
(** [I x0 s] is to hold at the loop test with counter [x0], [J x0 s] inside
    month [x0 + 1], between two goal checks. *)
Context (I J : Z → state → Prop).
Hypothesis I_open : ∀ x0 s, (0 ≤ x0)%Z → I x0 s → J x0 (open_month t a s).
Hypothesis J_check : ∀ x0 g s s',
  (0 ≤ x0)%Z → J x0 s → check_goal w x0 g s = Returned s' → J x0 s'.
Hypothesis J_close : ∀ x0 s, (0 ≤ x0)%Z → J x0 s → I (x0 + 1) (close_month s).

Lemma for_goals_invariant x0 snapshot s s' :
  (0 ≤ x0)%Z → J x0 s → for_goals w x0 snapshot s = Returned s' → J x0 s'.
Proof.
  intros Hx. revert s. induction snapshot as [|g rest IH]; intros s Hs; simpl.
  - by intros [= <-].
  - intros (s1 & H1 & H2)%bind_Returned. eauto.
Qed.

Lemma month_invariant x0 s s' :
  (0 ≤ x0)%Z → I x0 s → month t a w x0 s = Returned s' → I (x0 + 1) s'.
Proof.
  intros Hx Hs. unfold month. intros (s2 & H2 & [= <-])%bind_Returned.
  eauto using for_goals_invariant.
Qed.

Lemma months_invariant n x0 s s' :
  (0 ≤ x0)%Z → I x0 s → months n t a w x0 s = Returned s' →
  I (x0 + Z.of_nat n) s'.
Proof.
  revert x0 s. induction n as [|n IH]; intros x0 s Hx Hs; cbn [months].
  - intros [= <-]. by rewrite Z.add_0_r.
  - intros (s1 & H1 & H2)%bind_Returned.
    replace (x0 + Z.of_nat (S n))%Z with (x0 + 1 + Z.of_nat n)%Z by lia.
    apply (IH (x0 + 1)%Z s1); [lia| |done]. eauto using month_invariant.
Qed.

Lemma run_invariant gs limit init s :
  I 0 (initial_state gs init) →
  run t a gs w limit init = Returned s → I (Z.max 0 limit) s.
Proof.
  intros H0. rewrite run_months. intros Hr.
  replace (Z.max 0 limit) with (0 + Z.of_nat (Z.to_nat limit))%Z by lia.
  by apply (months_invariant _ _ _ _ (Z.le_refl 0) H0).
Qed.
End invariants.

Lemma newinvestment_Returned t a gs w limit init r :
  newinvestment t a gs w limit init = Returned r ↔
  ∃ s, run t a gs w limit init = Returned s ∧
       r = (y s, y_start s, withdraw_months s).
Proof.
  unfold newinvestment. rewrite bind_Returned.
  split; intros (s & ? & ?); exists s; split; congruence.
Qed.

(** ** Lengths of the two balance series *)

(** C9: for a positive horizon [limit], a call that returns gives two
    balance series, [y] (balance_after) and [y_start] (balance_before), of
    length exactly [limit]. *)
Theorem balance_series_lengths t a gs w limit init ys ystart wm :
  (0 < limit)%Z →
  newinvestment t a gs w limit init = Returned (ys, ystart, wm) →
  Z.of_nat (length ys) = limit ∧ Z.of_nat (length ystart) = limit.
Proof.
  intros Hl (s & Hr & [= -> -> ->])%newinvestment_Returned.
  pose (I := λ (x0 : Z) (s : state),
          Z.of_nat (length (y s)) = x0 ∧ Z.of_nat (length (y_start s)) = x0).
  pose (J := λ (x0 : Z) (s : state),
          Z.of_nat (length (y s)) = x0 ∧
          Z.of_nat (length (y_start s)) = (x0 + 1)%Z).
  assert (I (Z.max 0 limit) s) as [H1 H2]; [|split; lia].
  apply (run_invariant t a w I J) with (gs := gs) (init := init); try done.
  - intros x0 s0 _ [? ?]. split; simpl; [done|]. rewrite length_app. simpl. lia.
  - intros x0 g s0 s1 _ [? ?] [[_ ->]|(_ & _ & gs' & _ & ->)]%check_goal_Returned;
      by split.
  - intros x0 s0 _ [? ?]. split; simpl; [|done]. rewrite length_app. simpl. lia.
Qed.

Lemma balance_series_lengths_witness :
  (0 < 3)%Z ∧
  Z.of_nat (length [100; 200; 250]%Z) = 3%Z ∧
  Z.of_nat (length [0; 100; 200]%Z) = 3%Z.
Proof.
  split; [lia|].
  apply (balance_series_lengths 0 (of_int 100) [of_int 250] (of_int 50) 3 0
           _ _ [3]%Z); [lia|by vm_compute].
Defined.

(** ** Non-negative balances *)

Lemma check_goal_nonneg w x0 g s s' :
  0 ≤ y0 s → check_goal w x0 g s = Returned s' → 0 ≤ y0 s'.
Proof.
  intros H0 [[_ ->]|(_ & Hn & gs' & _ & ->)]%check_goal_Returned; [done|].
  simpl. by apply sub_nonneg.
Qed.

Lemma run_nonneg t a gs w limit init s :
  0 ≤ init → 0 ≤ a → - of_int 100 ≤ t →
  run t a gs w limit init = Returned s →
  0 ≤ y0 s ∧ Forall (λ b, (0 ≤ b)%Z) (y s) ∧ Forall (λ b, (0 ≤ b)%Z) (y_start s).
Proof.
  intros Hi Ha Ht Hr.
  pose (I := λ (x0 : Z) (s : state),
          0 ≤ y0 s ∧ Forall (λ b, (0 ≤ b)%Z) (y s) ∧
          Forall (λ b, (0 ≤ b)%Z) (y_start s)).
  apply (run_invariant t a w I I) with (gs := gs) (init := init) (limit := limit);
    try done.
  - intros x0 s0 _ (H0 & ? & ?). repeat split; simpl; [|done|].
    + apply of_int_nonneg, py_int_nonneg. by apply grow_arg_nonneg.
    + apply Forall_app; split; [done|]. repeat constructor. by apply py_int_nonneg.
  - intros x0 g s0 s1 _ (H0 & ? & ?) Hc. split; [by eapply check_goal_nonneg|].
    by destruct (check_goal_Returned _ _ _ _ _ Hc)
      as [[_ ->]|(_ & _ & gs' & _ & ->)].
  - intros x0 s0 _ (H0 & ? & ?). repeat split; simpl; [done| |done].
    apply Forall_app; split; [done|]. repeat constructor. by apply py_int_nonneg.
  - repeat split; simpl; [|constructor..].
    by apply of_int_nonneg, py_int_nonneg.
Qed.

(** C10: with a non-negative initial balance, contribution and withdrawal
    amount and a rate of at least -100 percent, every entry of both balance
    series of a call that returns is a non-negative integer; the guard of
    line 31 keeps the balance non-negative across a withdrawal. *)
Theorem balances_nonneg t a gs w limit init ys ystart wm :
  0 ≤ init → 0 ≤ a → 0 ≤ w → - of_int 100 ≤ t →
  newinvestment t a gs w limit init = Returned (ys, ystart, wm) →
  Forall (λ b, (0 ≤ b)%Z) ys ∧ Forall (λ b, (0 ≤ b)%Z) ystart ∧
  (∀ x0 g s s', 0 ≤ y0 s → check_goal w x0 g s = Returned s' → 0 ≤ y0 s').
Proof.
  intros Hi Ha Hw Ht (s & Hr & [= -> -> ->])%newinvestment_Returned.
  destruct (run_nonneg _ _ _ _ _ _ _ Hi Ha Ht Hr) as (_ & ? & ?).
  eauto using check_goal_nonneg.
Qed.

Lemma balances_nonneg_witness :
  Forall (λ b, (0 ≤ b)%Z) [100; 200; 250]%Z ∧
  Forall (λ b, (0 ≤ b)%Z) [0; 100; 200]%Z ∧
  (∀ x0 g s s',
     0 ≤ y0 s → check_goal (of_int 50) x0 g s = Returned s' → 0 ≤ y0 s').
Proof.
  apply (balances_nonneg 0 (of_int 100) [of_int 250] (of_int 50) 3 0
           _ _ [3]%Z); by vm_compute.
Defined.

(** ** The withdrawal log *)

(** C8: in a call that returns, [withdraw_months] is no longer than the goal
    list, each of its entries lies between 1 and [limit], and it is
    non-decreasing. *)
Theorem withdraw_months_bounded_sorted t a gs w limit init ys ystart wm :
  newinvestment t a gs w limit init = Returned (ys, ystart, wm) →
  (length wm ≤ length gs)%nat ∧
  Forall (λ m, (1 ≤ m ≤ limit)%Z) wm ∧
  StronglySorted Z.le wm.
Proof.
  intros (s & Hr & [= -> -> ->])%newinvestment_Returned.
  pose (J := λ (hi : Z) (s : state),
          Forall (λ m, (1 ≤ m ≤ hi)%Z) (withdraw_months s) ∧
          StronglySorted Z.le (withdraw_months s) ∧
          (length (withdraw_months s) + length (goals s) = length gs)%nat).
  assert (J (Z.max 0 limit) s) as (Hb & Hs & Hl).
  { apply (run_invariant t a w J (λ x0, J (x0 + 1)%Z)) with (gs := gs) (init := init);
      try done.
    - intros x0 s0 _ (Hb & ? & ?). repeat split; simpl; [|done..].
      eapply Forall_impl; [exact Hb|]. simpl. lia.
    - intros x0 g s0 s1 Hx (Hb & Hs & Hl)
        [[_ ->]|(_ & _ & gs' & Hrm & ->)]%check_goal_Returned; [done|].
      repeat split; simpl.
      + apply Forall_app; split; [done|]. repeat constructor; lia.
      + apply StronglySorted_app; repeat split; [|done|repeat constructor].
        intros m1 m2 H1 ->%list_elem_of_singleton.
        rewrite Forall_forall in Hb. apply Hb in H1. lia.
      + rewrite length_app. simpl. apply list_remove_length in Hrm. lia.
    - repeat split; simpl; constructor. }
  repeat split; [lia| |done].
  eapply Forall_impl; [exact Hb|]. simpl. lia.
Qed.

Lemma withdraw_months_bounded_sorted_witness :
  (length [3]%Z ≤ length [of_int 250])%nat ∧
  Forall (λ m, (1 ≤ m ≤ 3)%Z) [3]%Z ∧
  StronglySorted Z.le [3]%Z.
Proof.
  apply (withdraw_months_bounded_sorted 0 (of_int 100) [of_int 250] (of_int 50)
           3 0 [100; 200; 250]%Z [0; 100; 200]%Z).
  by vm_compute.
Defined.

(** ** Each goal fires at most once *)

(** C7: every entry of the goal list accounts for at most one withdrawal.
    The goals of the withdrawals applied ([fired], one per entry of
    [withdraw_months]) together with the goals still active are a
    rearrangement of the caller's list: a fired entry has left the active list
    for good, and no entry is counted twice. *)
Theorem goal_fires_at_most_once t a gs w limit init s :
  run t a gs w limit init = Returned s →
  fired s ++ goals s ≡ₚ gs ∧
  fired s ⊆+ gs ∧
  length (fired s) = length (withdraw_months s).
Proof.
  intros Hr.
  pose (I := λ (_ : Z) (s : state),
          fired s ++ goals s ≡ₚ gs ∧
          length (fired s) = length (withdraw_months s)).
  assert (I (Z.max 0 limit) s) as [Hp Hl].
  { apply (run_invariant t a w I I) with (gs := gs) (init := init); try done.
    intros x0 g s0 s1 _ [Hp Hl]
      [[_ ->]|(_ & _ & gs' & Hrm & ->)]%check_goal_Returned; [done|].
    split; simpl.
    - rewrite <- Hp, <- app_assoc. simpl.
      apply list_remove_Permutation in Hrm. by rewrite Hrm.
    - rewrite !length_app. simpl. lia. }
  repeat split; [done| |done].
  rewrite <- Hp. by apply submseteq_inserts_r.
Qed.

Lemma goal_fires_at_most_once_witness :
  ∃ s, run 0 (of_int 100) [of_int 250] (of_int 50) 3 0 = Returned s ∧
       fired s ++ goals s ≡ₚ [of_int 250] ∧
       fired s ⊆+ [of_int 250] ∧
       length (fired s) = length (withdraw_months s).
Proof.
  eexists. split; [vm_compute; reflexivity|].
  apply (goal_fires_at_most_once 0 (of_int 100) [of_int 250] (of_int 50) 3 0).
  vm_compute; reflexivity.
Defined.

(** ** Growth and contribution *)





(** ** Truncation of the balance after a withdrawal *)

(** C5, as stated, fails: rate 100, no contribution, one goal 1, withdrawal
    1/2, initial balance 2.  Month 1 grows the balance to 4 and withdraws
    to 7/2, recorded as 3.  Month 2 (no goal left) records 7 = int(7/2 * 2),
    not 6 = int(3 * 2): the balance carried into month 2 was not truncated. *)
Lemma withdrawal_balance_carried_untruncated :
  newinvestment (of_int 100) 0 [1] (1 / 2) 2 (of_int 2)
    = Returned ([3; 7]%Z, [2; 3]%Z, [1]%Z) ∧
  grow (of_int 100) 0 (of_int 3) = 6%Z ∧
  ¬ (∀ t a gs w k init s,
       run t a gs w k init = Returned s → integral (y0 s)).
Proof.
  split; [by vm_compute|]. split; [by vm_compute|].
  intros H.
  destruct (run (of_int 100) 0 [1] (1 / 2) 1 (of_int 2)) as [s| |] eqn:Hr;
    [|by vm_compute in Hr..].
  specialize (H _ _ _ _ _ _ _ Hr).
  vm_compute in Hr. injection Hr as <-.
  unfold integral in H. apply (f_equal (λ q : Qc, Qden q)) in H.
  by vm_compute in H.
Qed.

(** C5, amended: the balance left by a month, withdrawals included, is
    recorded truncated toward zero, both as that month's last [y] entry and
    as the next month's [y_start] entry; and when the withdrawal amount is
    an integer the balance carried into the next month's computation is
    itself an integer, so that it equals the recorded one. *)
Theorem closing_balance_truncation t a gs w k init s :
  (0 < k)%Z →
  run t a gs w k init = Returned s →
  last (y s) = Some (py_int (y0 s)) ∧
  last (y_start (open_month t a s)) = Some (py_int (y0 s)) ∧
  (integral w → y0 s = of_int (py_int (y0 s))).
Proof.
  intros Hk Hr. split; [|split].
  - pose (I := λ (x0 : Z) (s : state),
            (0 < x0)%Z → last (y s) = Some (py_int (y0 s))).
    assert (I (Z.max 0 k) s) as H; [|apply H; lia].
    apply (run_invariant t a w I (λ _ _, True)) with (gs := gs) (init := init);
      try done.
    intros x0 s0 _ _ _. simpl. apply last_snoc.
  - simpl. apply last_snoc.
  - intros Hw. symmetry.
    apply (run_invariant t a w (λ _ s, integral (y0 s)) (λ _ s, integral (y0 s)))
      with (gs := gs) (init := init) (limit := k); try done.
    + intros x0 s0 _ _. apply integral_of_int.
    + intros x0 g s0 s1 _ H0
        [[_ ->]|(_ & _ & gs' & _ & ->)]%check_goal_Returned; [done|].
      simpl. by apply integral_sub.
    + apply integral_of_int.
Qed.

Lemma closing_balance_truncation_witness :
  ∃ s, run 0 (of_int 100) [of_int 250] (of_int 50) 3 0 = Returned s ∧
       last (y s) = Some (py_int (y0 s)) ∧
       last (y_start (open_month 0 (of_int 100) s)) = Some (py_int (y0 s)) ∧
       (integral (of_int 50) → y0 s = of_int (py_int (y0 s))).
Proof.
  eexists. split; [vm_compute; reflexivity|].
  apply (closing_balance_truncation 0 (of_int 100) [of_int 250] (of_int 50) 3 0);
    [lia|vm_compute; reflexivity].
Defined.

(** ** The single failure *)

Lemma newinvestment_Raised t a gs w limit init e :
  newinvestment t a gs w limit init = Raised e ↔
  run t a gs w limit init = Raised e.
Proof.
  unfold newinvestment. rewrite bind_Raised.
  split; [|by left]. by intros [?|(? & _ & ?)].
Qed.

Lemma newinvestment_not_OutOfFuel t a gs w limit init :
  newinvestment t a gs w limit init ≠ OutOfFuel.
Proof.
  unfold newinvestment. rewrite run_months.
  destruct (months _ t a w 0 (initial_state gs init)) eqn:Hm; [done..|].
  by apply months_not_OutOfFuel in Hm.
Qed.






(** ** Order of the goal checks within a month *)




(** ** The caller's goal list *)

Section store.
Context (g : Heap.loc) (σ0 : gmap Heap.loc (list Qc)).

Lemma read_working l : Heap.read (<[g := l]> σ0) g = l.
Proof. unfold Heap.read. by rewrite lookup_insert_eq. Qed.

Lemma heap_check_goal w x0 goal s :
  agrees g σ0 (check_goal w x0 goal s)
    (Heap.check_goal w x0 goal (frame_of g s) (<[g := goals s]> σ0)).
Proof.
  unfold Heap.check_goal, check_goal, Heap.withdraw, withdraw. simpl.
  case_decide; [|done].
  case_decide; [by eexists|].
  rewrite read_working.
  destruct (list_remove goal (goals s)) as [gs|]; simpl; [|by eexists].
  by rewrite insert_insert_eq.
Qed.

Lemma heap_for_goals w x0 snapshot s :
  agrees g σ0 (for_goals w x0 snapshot s)
    (Heap.for_goals w x0 snapshot (frame_of g s) (<[g := goals s]> σ0)).
Proof.
  revert s. induction snapshot as [|goal rest IH]; intros s; [done|].
  simpl. unfold Heap.mbind.
  pose proof (heap_check_goal w x0 goal s) as Hc.
  destruct (check_goal w x0 goal s) as [s'| |]; simpl in *.
  - rewrite Hc. apply IH.
  - destruct Hc as [l ->]. by eexists.
  - destruct Hc as [l ->]. by eexists.
Qed.

Lemma heap_month t a w x0 s :
  agrees g σ0 (month t a w x0 s)
    (Heap.month t a w x0 (frame_of g s) (<[g := goals s]> σ0)).
Proof.
  unfold Heap.month, month, Heap.mbind. simpl. rewrite read_working.
  pose proof (heap_for_goals w x0 (goals s) (open_month t a s)) as Hf.
  change (Heap.open_month t a (frame_of g s))
    with (frame_of g (open_month t a s)).
  simpl in Hf.
  destruct (for_goals w x0 (goals s) (open_month t a s)) as [s'| |]; simpl in *.
  - by rewrite Hf.
  - destruct Hf as [l ->]. by eexists.
  - destruct Hf as [l ->]. by eexists.
Qed.

Lemma heap_while_loop fuel t a w limit x0 s :
  agrees g σ0 (while_loop fuel t a w limit x0 s)
    (Heap.while_loop fuel t a w limit x0 (frame_of g s) (<[g := goals s]> σ0)).
Proof.
  revert x0 s. induction fuel as [|fuel IH]; intros x0 s; simpl.
  - case_decide; [by eexists|done].
  - case_decide; [|done]. unfold Heap.mbind.
    pose proof (heap_month t a w x0 s) as Hm.
    destruct (month t a w x0 s) as [s'| |]; simpl in *.
    + rewrite Hm. apply IH.
    + destruct Hm as [l ->]. by eexists.
    + destruct Hm as [l ->]. by eexists.
Qed.
End store.

(** The store-level engine computes what the value-level engine computes on
    the list the caller's reference points to, and touches the store at one
    new location only. *)
Lemma heap_newinvestment t a (travelgoals : Heap.loc) w limit init
    (σ : gmap Heap.loc (list Qc)) gs :
  σ !! travelgoals = Some gs →
  ∃ l, Heap.newinvestment t a travelgoals w limit init σ
       = (newinvestment t a gs w limit init, <[fresh (dom σ) := l]> σ).
Proof.
  intros Hgs. unfold Heap.newinvestment, Heap.alloc, newinvestment, run.
  unfold Heap.read at 1. rewrite Hgs. simpl. unfold Heap.mbind.
  pose proof (heap_while_loop (fresh (dom σ)) σ (Z.to_nat limit) t a w limit 0
                (initial_state gs init)) as Hw.
  simpl in Hw. unfold frame_of in Hw. simpl in Hw.
  destruct (while_loop _ t a w limit 0 (initial_state gs init)) as [s| |];
    simpl in *.
  - rewrite Hw. by eexists.
  - destruct Hw as [l ->]. by eexists.
  - destruct Hw as [l ->]. by eexists.
Qed.

(** C6: whether the call returns or raises (it always does one of the two),
    the list object the caller passed holds the same elements in the same
    order afterwards, as does every other object of the caller's store; the
    engine removes goals from its own copy only. *)
Theorem caller_goals_unchanged t a (travelgoals : Heap.loc) w limit init
    (σ σ' : gmap Heap.loc (list Qc)) gs out :
  σ !! travelgoals = Some gs →
  Heap.newinvestment t a travelgoals w limit init σ = (out, σ') →
  out ≠ OutOfFuel ∧
  out = newinvestment t a gs w limit init ∧
  σ' !! travelgoals = Some gs ∧
  (∀ l, l ∈ dom σ → σ' !! l = σ !! l).
Proof.
  intros Hgs Hcall.
  destruct (heap_newinvestment t a travelgoals w limit init σ gs Hgs) as [l Hl].
  rewrite Hl in Hcall. injection Hcall as <- <-.
  assert (∀ l', l' ∈ dom σ → <[fresh (dom σ) := l]> σ !! l' = σ !! l') as Hframe.
  { intros l' Hl'. apply lookup_insert_ne. intros <-. by apply is_fresh in Hl'. }
  repeat split.
  - apply newinvestment_not_OutOfFuel.
  - rewrite Hframe; [done|]. by apply elem_of_dom_2 in Hgs.
  - done.
Qed.

Lemma caller_goals_unchanged_witness :
  let σ : gmap Heap.loc (list Qc) := {[ 1%positive := [of_int 250] ]} in
  let r := Heap.newinvestment 0 (of_int 100) 1%positive (of_int 50) 3 0 σ in
  r.1 = Returned ([100; 200; 250]%Z, [0; 100; 200]%Z, [3]%Z) ∧
  r.2 !! 1%positive = Some [of_int 250].
Proof.
  intros σ r.
  destruct (caller_goals_unchanged 0 (of_int 100) 1%positive (of_int 50) 3 0
              σ r.2 [of_int 250] r.1) as (_ & Hout & Hσ & _).
  - reflexivity.
  - apply surjective_pairing.
  - split; [|done]. rewrite Hout. by vm_compute.
Defined.

(** ** A worked run *)

(** C3: rate 0, contribution 100, goals [250], withdrawal 50, horizon 3,
    initial balance 0 returns balance_after [100, 200, 250], balance_before
    [0, 100, 200] and withdrawal_months [3]. *)
Theorem scenario2 :
  newinvestment 0 (of_int 100) [of_int 250] (of_int 50) 3 0
  = Returned ([100; 200; 250]%Z, [0; 100; 200]%Z, [3]%Z).
Proof. vm_compute. reflexivity. Qed.

Example scenario1 :
  newinvestment 0 0 [] 0 3 (of_int 1000)
  = Returned ([1000; 1000; 1000]%Z, [1000; 1000; 1000]%Z, []).
Proof. vm_compute. reflexivity. Qed.

Example scenario3 :
  newinvestment 0 0 [of_int 50] (of_int 1000) 1 (of_int 60)
  = Raised InvalidWithdrawal.
Proof. vm_compute. reflexivity. Qed.

(** * Further properties of the engine *)

(** ** Shape of a returned run *)

Lemma run_lengths t a gs w limit init s :
  run t a gs w limit init = Returned s →
  length (y s) = Z.to_nat limit ∧ length (y_start s) = Z.to_nat limit.
Proof.
  intros Hr.
  pose (I := λ (x0 : Z) (s : state),
          Z.of_nat (length (y s)) = x0 ∧ Z.of_nat (length (y_start s)) = x0).
  pose (J := λ (x0 : Z) (s : state),
          Z.of_nat (length (y s)) = x0 ∧
          Z.of_nat (length (y_start s)) = (x0 + 1)%Z).
  assert (I (Z.max 0 limit) s) as [H1 H2]; [|split; lia].
  apply (run_invariant t a w I J) with (gs := gs) (init := init); try done.
  - intros x0 s0 _ [? ?]. split; simpl; [done|]. rewrite length_app. simpl. lia.
  - intros x0 g s0 s1 _ [? ?] [[_ ->]|(_ & _ & gs' & _ & ->)]%check_goal_Returned;
      by split.
  - intros x0 s0 _ [? ?]. split; simpl; [|done]. rewrite length_app. simpl. lia.
Qed.

Lemma run_withdraw_months t a gs w limit init s :
  run t a gs w limit init = Returned s →
  Forall (λ m, (1 ≤ m ≤ Z.max 0 limit)%Z) (withdraw_months s) ∧
  (length (withdraw_months s) + length (goals s) = length gs)%nat ∧
  goals s ⊆+ gs.
Proof.
  intros Hr.
  pose (J := λ (hi : Z) (s : state),
          Forall (λ m, (1 ≤ m ≤ hi)%Z) (withdraw_months s) ∧
          (length (withdraw_months s) + length (goals s) = length gs)%nat ∧
          goals s ⊆+ gs).
  apply (run_invariant t a w J (λ x0, J (x0 + 1)%Z)) with (gs := gs) (init := init);
    try done.
  - intros x0 s0 _ (Hb & ? & ?). repeat split; simpl; [|done..].
    eapply Forall_impl; [exact Hb|]. simpl. lia.
  - intros x0 g s0 s1 Hx (Hb & Hl & Hsub)
      [[_ ->]|(_ & _ & gs' & Hrm & ->)]%check_goal_Returned; [done|].
    repeat split; simpl.
    + apply Forall_app; split; [done|]. repeat constructor; lia.
    + rewrite length_app. simpl. apply list_remove_length in Hrm. lia.
    + etrans; [|exact Hsub]. apply list_remove_Permutation in Hrm.
      rewrite Hrm. by apply submseteq_cons.
Qed.

(** ** A horizon that is not positive *)



(** ** The two balance series *)

(** X4: the opening balances are the closing balances moved one month
    later, with [int(initial_balance)] in front: for the value [b] that the
    next month would open with, [y_start + [b] = [int(initial_balance)] + y]. *)
Theorem opening_is_previous_closing t a gs w limit init ys ystart wm :
  newinvestment t a gs w limit init = Returned (ys, ystart, wm) →
  ∃ b, ystart ++ [b] = py_int init :: ys.
Proof.
  intros (s & Hr & [= -> -> ->])%newinvestment_Returned.
  exists (py_int (y0 s)).
  pose (I := λ (_ : Z) (s : state),
          y_start s ++ [py_int (y0 s)] = py_int init :: y s).
  pose (J := λ (_ : Z) (s : state), y_start s = py_int init :: y s).
  apply (run_invariant t a w I J) with (gs := gs) (init := init) (limit := limit);
    try done.
  - intros x0 g s0 s1 _ H0
      [[_ ->]|(_ & _ & gs' & _ & ->)]%check_goal_Returned; done.
  - intros x0 s0 _ H0. unfold I, J in *. simpl. by rewrite H0.
  - unfold I. simpl. by rewrite py_int_of_int.
Qed.

Lemma opening_is_previous_closing_witness :
  ∃ b, [0; 100; 200]%Z ++ [b] = py_int 0 :: [100; 200; 250]%Z.
Proof.
  apply (opening_is_previous_closing 0 (of_int 100) [of_int 250] (of_int 50) 3 0
           _ _ [3]%Z).
  by vm_compute.
Defined.

(** ** No goals *)


(** ** Changing the horizon *)

(** What months [k + 1], [k + 2], ... add to the state left by month [k]. *)
Lemma months_extend n t a w (k : Z) sk s :
  (0 ≤ k)%Z →
  months n t a w k sk = Returned s →
  y sk `prefix_of` y s ∧
  y_start sk `prefix_of` y_start s ∧
  ∃ rest, withdraw_months s = withdraw_months sk ++ rest ∧
          Forall (λ m, (k < m)%Z) rest.
Proof.
  intros Hk Hm.
  pose (I := λ (x0 : Z) (s : state),
          (k ≤ x0)%Z ∧
          y sk `prefix_of` y s ∧
          y_start sk `prefix_of` y_start s ∧
          ∃ rest, withdraw_months s = withdraw_months sk ++ rest ∧
                  Forall (λ m, (k < m)%Z) rest).
  assert (I (k + Z.of_nat n)%Z s) as (_ & ? & ? & ?); [|done].
  apply (months_invariant t a w I I) with (x0 := k) (s := sk); try done.
  - intros x0 s0 _ (? & ? & ? & ?). repeat split; simpl; try done.
    by apply prefix_app_r.
  - intros x0 g s0 s1 _ HI
      [[_ ->]|(_ & _ & gs' & _ & ->)]%check_goal_Returned; [done|].
    destruct HI as (Hx & ? & ? & rest & Hw & Hrest).
    repeat split; simpl; try done.
    exists (rest ++ [(x0 + 1)%Z]). rewrite Hw, app_assoc. split; [done|].
    apply Forall_app; split; [done|]. repeat constructor. lia.
  - intros x0 s0 _ (? & ? & ? & ?). repeat split; simpl; try done; [lia|].
    by apply prefix_app_r.
  - repeat split; try done. exists []. by rewrite app_nil_r.
Qed.

Lemma prefix_take (l1 l2 : list Z) :
  l1 `prefix_of` l2 → l1 = take (length l1) l2.
Proof. intros [r ->]. by rewrite take_app_length. Qed.

(** X5: a longer horizon does not change the earlier months.  If the call
    for [limit] months returns and [0 ≤ k ≤ limit], the call for [k] months
    returns the first [k] entries of both balance series, and the log splits
    into that call's log (months up to [k]) and later months. *)
Theorem shorter_horizon_prefix t a gs w (k limit : Z) init ys ystart wm :
  (0 ≤ k ≤ limit)%Z →
  newinvestment t a gs w limit init = Returned (ys, ystart, wm) →
  ∃ wm_k rest,
    newinvestment t a gs w k init
      = Returned (take (Z.to_nat k) ys, take (Z.to_nat k) ystart, wm_k) ∧
    wm = wm_k ++ rest ∧
    Forall (λ m, (1 ≤ m ≤ k)%Z) wm_k ∧
    Forall (λ m, (k < m ≤ limit)%Z) rest.
Proof.
  intros Hk (s & Hr & [= -> -> ->])%newinvestment_Returned.
  pose proof (run_withdraw_months _ _ _ _ _ _ _ Hr) as (Hall & _ & _).
  rewrite (run_prefix t a gs w k limit) in Hr by done.
  apply bind_Returned in Hr as (sk & Hrk & Hm).
  apply months_extend in Hm as (Hy & Hys & rest & Hw & Hrest); [|lia].
  pose proof (run_lengths _ _ _ _ _ _ _ Hrk) as [Hly Hlys].
  pose proof (run_withdraw_months _ _ _ _ _ _ _ Hrk) as (Hbk & _ & _).
  exists (withdraw_months sk), rest. repeat split.
  - unfold newinvestment. rewrite Hrk. simpl.
    rewrite <- Hly at 1. rewrite <- Hlys.
    by rewrite <- !prefix_take.
  - done.
  - eapply Forall_impl; [exact Hbk|]. simpl. lia.
  - rewrite Hw in Hall. apply Forall_app in Hall as [_ Hall].
    rewrite Forall_forall in Hall, Hrest. apply Forall_forall.
    intros m Hm. specialize (Hall m Hm). specialize (Hrest m Hm). lia.
Qed.

Lemma shorter_horizon_prefix_witness :
  ∃ wm_k rest,
    newinvestment 0 (of_int 100) [of_int 250] (of_int 50) 2 0
      = Returned (take (Z.to_nat 2) [100; 200; 250]%Z,
                  take (Z.to_nat 2) [0; 100; 200]%Z, wm_k) ∧
    [3]%Z = wm_k ++ rest ∧
    Forall (λ m, (1 ≤ m ≤ 2)%Z) wm_k ∧
    Forall (λ m, (2 < m ≤ 3)%Z) rest.
Proof.
  apply (shorter_horizon_prefix 0 (of_int 100) [of_int 250] (of_int 50) 2 3 0);
    [lia|by vm_compute].
Defined.

(** X6: a failure is not undone by a longer horizon.  If the call for [k]
    months raises, so does the call for any [limit ≥ k], with the same
    exception. *)
Theorem failure_persists t a gs w (k limit : Z) init e :
  (k ≤ limit)%Z →
  newinvestment t a gs w k init = Raised e →
  newinvestment t a gs w limit init = Raised e.
Proof.
  intros Hk Hr%newinvestment_Raised. apply newinvestment_Raised.
  destruct (decide (0 ≤ k)%Z) as [H0|H0].
  - rewrite (run_prefix t a gs w k limit) by done. by rewrite Hr.
  - rewrite run_months in Hr. by replace (Z.to_nat k) with O in Hr by lia.
Qed.

Lemma failure_persists_witness :
  newinvestment 0 0 [of_int 50] (of_int 1000) 5 (of_int 60)
  = Raised InvalidWithdrawal.
Proof.
  apply (failure_persists 0 0 [of_int 50] (of_int 1000) 1 5 (of_int 60));
    [lia|by vm_compute].
Defined.

(** ** When the call cannot fail *)





(** ** Balance and active goals at the end of a month *)

(** Goals passed over in a month's pass stay at or above the balance, which
    withdrawals can only lower. *)
Lemma for_goals_settled w x0 pending kept s s' :
  0 ≤ w →
  goals s ≡ₚ kept ++ pending →
  Forall (λ g, y0 s ≤ g) kept →
  for_goals w x0 pending s = Returned s' →
  Forall (λ g, y0 s' ≤ g) (goals s').
Proof.
  intros Hw. revert kept s.
  induction pending as [|g rest IH]; intros kept s Hp Hk; simpl.
  - intros [= <-]. rewrite app_nil_r in Hp. by rewrite Hp.
  - intros (s1 & Hc & Hf)%bind_Returned.
    apply check_goal_Returned in Hc as [[Hg ->]|(_ & _ & gs' & Hrm & ->)].
    + apply (IH (g :: kept) s); [|constructor|]; try done.
      * rewrite Hp. by rewrite <- Permutation_middle.
      * by apply Qcnot_lt_le.
    + eapply (IH kept); [| |exact Hf]; simpl.
      * apply list_remove_Permutation in Hrm. rewrite Hrm in Hp.
        rewrite <- Permutation_middle in Hp. by apply Permutation_cons_inv in Hp.
      * eapply Forall_impl; [exact Hk|]. simpl. intros g' Hg'.
        etrans; [|exact Hg']. qc_to_q. lra.
Qed.

(** X8: with a non-negative withdrawal amount, at the end of every month the
    balance exceeds no goal that is still active: a goal can fire again only
    after further growth or contribution. *)
Theorem closing_balance_below_active_goals t a gs w limit init s :
  (0 < limit)%Z → 0 ≤ w →
  run t a gs w limit init = Returned s →
  Forall (λ g, y0 s ≤ g) (goals s).
Proof.
  intros Hl Hw Hr.
  replace limit with (limit - 1 + 1)%Z in Hr by lia.
  rewrite run_succ in Hr by lia.
  apply bind_Returned in Hr as (sk & _ & Hm).
  unfold month in Hm. apply bind_Returned in Hm as (s2 & Hf & [= <-]).
  simpl. by apply (for_goals_settled w _ _ [] _ _ Hw) in Hf.
Qed.

Lemma closing_balance_below_active_goals_witness :
  ∃ s, run 0 (of_int 100) [of_int 250; of_int 1000] (of_int 50) 3 0 = Returned s ∧
       Forall (λ g, y0 s ≤ g) (goals s).
Proof.
  eexists. split; [vm_compute; reflexivity|].
  apply (closing_balance_below_active_goals 0 (of_int 100)
           [of_int 250; of_int 1000] (of_int 50) 3 0);
    [lia|by vm_compute|vm_compute; reflexivity].
Defined.

(** ** The summary of a run *)

Lemma integral_inv x : integral x → ∃ z, x = of_int z.
Proof. intros H. exists (py_int x). by rewrite H. Qed.






(** X11: with a non-negative withdrawal amount the total withdrawn is at most
    one withdrawal per goal of the caller's list. *)
Theorem total_withdrawals_bounded t a gs w limit init ys ystart wm :
  0 ≤ w →
  newinvestment t a gs w limit init = Returned (ys, ystart, wm) →
  total_withdrawals wm w ≤ of_int (Z.of_nat (length gs)) * w.
Proof.
  intros Hw (s & Hr & [= -> -> ->])%newinvestment_Returned.
  apply run_withdraw_months in Hr as (_ & Hl & _).
  unfold total_withdrawals. apply Qcmult_le_mono_nonneg_r; [done|].
  unfold of_int. apply (proj1 (Z2Qc_inj_le _ _)). lia.
Qed.

Lemma total_withdrawals_bounded_witness :
  total_withdrawals [3]%Z (of_int 50)
  ≤ of_int (Z.of_nat (length [of_int 250; of_int 1000])) * of_int 50.
Proof.
  apply (total_withdrawals_bounded 0 (of_int 100) [of_int 250; of_int 1000]
           (of_int 50) 3 0 [100; 200; 250]%Z [0; 100; 200]%Z);
    by vm_compute.
Defined.

(** ** The withdrawal markers of the chart *)

Lemma py_index_in_range (l : list Z) (i : Z) :
  (0 ≤ i < Z.of_nat (length l))%Z → py_index l i = l !! Z.to_nat i.
Proof.
  intros Hi. unfold py_index. cbv zeta.
  destruct (decide (i < 0)%Z); [lia|].
  destruct (decide (0 ≤ i < Z.of_nat (length l))%Z); [done|lia].
Qed.

Lemma withdraw_values_in_range (l wm : list Z) :
  Forall (λ m, (1 ≤ m ≤ Z.of_nat (length l))%Z) wm →
  ∃ vs, withdraw_values l wm = Some vs ∧
        Forall2 (λ m v, l !! Z.to_nat (m - 1) = Some v) wm vs.
Proof.
  induction 1 as [|m wm Hm _ (vs & Hvs & Hall)].
  - exists []. by split; [|constructor].
  - destruct (lookup_lt_is_Some_2 l (Z.to_nat (m - 1))) as [v Hv]; [lia|].
    exists (v :: vs). unfold withdraw_values in *. simpl.
    rewrite py_index_in_range by lia. rewrite Hv. simpl. rewrite Hvs. simpl.
    split; [done|]. by constructor.
Qed.

(** X10: the marker heights of line 164 can always be computed from a result
    of the engine: no index is out of range or negative, and the marker of a
    withdrawal in month [m] is the opening balance of that month. *)
Theorem withdraw_markers_in_range t a gs w limit init ys ystart wm :
  newinvestment t a gs w limit init = Returned (ys, ystart, wm) →
  ∃ vs, withdraw_values ystart wm = Some vs ∧
        Forall2 (λ m v, ystart !! Z.to_nat (m - 1) = Some v) wm vs.
Proof.
  intros (s & Hr & [= -> -> ->])%newinvestment_Returned.
  apply withdraw_values_in_range.
  pose proof (run_lengths _ _ _ _ _ _ _ Hr) as [_ Hl].
  apply run_withdraw_months in Hr as (Hb & _ & _).
  eapply Forall_impl; [exact Hb|]. simpl. lia.
Qed.

Lemma withdraw_markers_in_range_witness :
  ∃ vs, withdraw_values [0; 100; 200]%Z [3]%Z = Some vs ∧
        Forall2 (λ m v, [0; 100; 200]%Z !! Z.to_nat (m - 1) = Some v) [3]%Z vs.
Proof.
  apply (withdraw_markers_in_range 0 (of_int 100) [of_int 250] (of_int 50) 3 0
           [100; 200; 250]%Z).
  by vm_compute.
Defined.

(** ** Calling twice on the same list object *)

(** X12: a second call with the same arguments, made on the store the first
    call left, gives the outcome of the first: the first call has not changed
    the list the caller's reference points to. *)
Theorem repeated_call_same_outcome t a (travelgoals : Heap.loc) w limit init
    (σ σ' σ'' : gmap Heap.loc (list Qc)) gs out out' :
  σ !! travelgoals = Some gs →
  Heap.newinvestment t a travelgoals w limit init σ = (out, σ') →
  Heap.newinvestment t a travelgoals w limit init σ' = (out', σ'') →
  out' = out.
Proof.
  intros Hgs H1 H2.
  destruct (heap_newinvestment t a travelgoals w limit init σ gs Hgs) as [l Hl].
  rewrite Hl in H1. injection H1 as <- <-.
  assert (<[fresh (dom σ) := l]> σ !! travelgoals = Some gs) as Hgs'.
  { rewrite lookup_insert_ne; [done|].
    intros <-. apply elem_of_dom_2 in Hgs. by apply is_fresh in Hgs. }
  destruct (heap_newinvestment t a travelgoals w limit init _ gs Hgs')
    as [l' Hl'].
  rewrite Hl' in H2. by injection H2 as <- <-.
Qed.

Lemma repeated_call_same_outcome_witness :
  let σ : gmap Heap.loc (list Qc) := {[ 1%positive := [of_int 250] ]} in
  let r1 := Heap.newinvestment 0 (of_int 100) 1%positive (of_int 50) 3 0 σ in
  let r2 := Heap.newinvestment 0 (of_int 100) 1%positive (of_int 50) 3 0 r1.2 in
  r2.1 = r1.1.
Proof.
  intros σ r1 r2.
  apply (repeated_call_same_outcome 0 (of_int 100) 1%positive (of_int 50) 3 0
           σ r1.2 r2.2 [of_int 250]).
  - reflexivity.
  - apply surjective_pairing.
  - apply surjective_pairing.
Defined.

(** ** The validator and the caller *)

Lemma validate_inputs_None rate horizon gs initial contribution budget :
  validate_inputs rate horizon gs initial contribution budget = None →
  0 ≤ rate ∧ 0 < horizon ∧ Forall (λ g, 0 < g) gs ∧
  0 ≤ initial ∧ 0 ≤ contribution ∧ 0 ≤ budget.
Proof.
  unfold validate_inputs.
  destruct (decide (rate < 0)) as [Hr|Hr%Qcnot_lt_le]; [done|].
  destruct (decide (horizon ≤ 0)) as [Hh|Hh%Qcnot_le_lt]; [done|].
  destruct (decide (Exists (λ g, g ≤ 0) gs)) as [Hg|Hg]; [done|].
  destruct (decide (initial < 0 ∨ contribution < 0 ∨ budget < 0)) as [Hm|Hm];
    [done|].
  intros _. repeat split; try done; try (apply Qcnot_lt_le; tauto).
  apply Forall_forall. intros g Hin. apply Qcnot_le_lt. intros Hle.
  apply Hg, Exists_exists. eauto.
Qed.


Lemma integral_pos_py_int x : integral x → 0 < x → (0 < py_int x)%Z.
Proof.
  intros [z ->]%integral_inv Hz. rewrite py_int_of_int.
  by apply (Z2Qc_inj_lt 0 z).
Qed.

(** X13: when the inputs are accepted, the horizon is an integer and the
    engine returns, the balance series are not empty: the summary's final
    balance is the last closing balance, a non-negative integer, and the
    fallback [initial_balance] of line 200 is not used. *)
Theorem shown_final_balance t limit gs init a w ys ystart wm :
  integral limit →
  sim_data t limit gs init a w = Some (ys, ystart, wm) →
  ∃ b, last ys = Some b ∧ (0 ≤ b)%Z ∧ final_balance ys init = of_int b.
Proof.
  intros Hint. unfold sim_data.
  destruct (validate_inputs t limit gs init a w) eqn:Hv; [done|].
  apply validate_inputs_None in Hv as (Ht & Hl & _ & Hi & Ha & _).
  destruct (newinvestment t a gs w (py_int limit) init) as [r| |] eqn:Hn;
    [|done..].
  intros [= ->].
  apply newinvestment_Returned in Hn as (s & Hr & [= -> -> ->]).
  pose proof (integral_pos_py_int limit Hint Hl) as Hpos.
  pose proof (run_lengths _ _ _ _ _ _ _ Hr) as [Hly _].
  assert (- of_int 100 ≤ t) as Ht'.
  { etrans; [|exact Ht]. by vm_compute. }
  destruct (run_nonneg _ _ _ _ _ _ _ Hi Ha Ht' Hr) as (_ & Hy & _).
  destruct (last (y s)) as [b|] eqn:Hlast.
  - exists b. repeat split; [|by unfold final_balance; rewrite Hlast].
    rewrite Forall_forall in Hy. apply Hy. apply last_Some in Hlast as [l' ->].
    apply elem_of_app. right. by left.
  - apply last_None in Hlast. rewrite Hlast in Hly. simpl in Hly. lia.
Qed.

Lemma shown_final_balance_witness :
  ∃ b, last [100; 200; 250]%Z = Some b ∧ (0 ≤ b)%Z ∧
       final_balance [100; 200; 250]%Z 0 = of_int b.
Proof.
  apply (shown_final_balance 0 (of_int 3) [of_int 250] 0 (of_int 100) (of_int 50)
           _ [0; 100; 200]%Z [3]%Z);
    [apply integral_of_int|by vm_compute].
Defined.



(** ** The balance equation of a month *)







